(** * PHOTOSITE: the gallery of [src/index.tsx]

    A shallow embedding of the view state of the photo gallery: the list
    of image slots held by [App], the layout mode, the update callback
    [handleImageUpdate], the file-selection handler of [ImageCard] and the
    start-up code that mounts the application.

    Conventions of the embedding.
    - A JavaScript [number] used as a slot id is an integer of [Z]; the
      program only creates the ids [i + 1] for array indices [i], and
      [===] on such numbers is [Z.eqb].
    - [string | null] is [option string]; a string is a [Stdlib] string,
      a non-ASCII literal being its UTF-8 bytes.
    - The two [useState] cells of [App] are the two fields of [AppState];
      a setter returns the next state. *)

From Stdlib Require Import List ZArith Lia Bool String Ascii.
From Stdlib Require Import DecimalString.
From Stdlib Require DecimalPos DecimalZ.
Import ListNotations.
Local Open Scope string_scope.
Local Open Scope Z_scope.

(** ** Type definitions *)

(** [interface ImageState { id: number; src: string | null }] *)
Record ImageState : Type := mkImageState {
  id  : Z;
  src : option string;
}.

(** [type Layout = 'grid' | 'feed'] *)
Inductive Layout : Type :=
| grid
| feed.

(** The state owned by [App]: [useState(initialImages)] and
    [useState('grid')]. *)
Record AppState : Type := mkAppState {
  images : list ImageState;
  layout : Layout;
}.

(** ** JavaScript helpers used by the source *)

(** [Array.from({ length }, (_, i) => f i)]: the images of the indices
    [0 .. length - 1], in order. *)
Definition Array_from {A : Type} (length : nat) (f : Z -> A) : list A :=
  map (fun i => f (Z.of_nat i)) (seq 0 length).

(** The text an integer takes inside a template literal: its decimal
    numeral, with a leading [-] when negative (JavaScript switches to
    exponent notation only from 1e21 on, far above any array index). *)
Definition numberToString (n : Z) : string :=
  NilZero.string_of_int (Z.to_int n).

(** JavaScript truthiness of a [string | null]: [null] and the empty
    string are falsy. *)
Definition truthy (s : option string) : bool :=
  match s with
  | None => false
  | Some EmptyString => false
  | Some (String _ _) => true
  end.

(** ** Constants *)

Definition INITIAL_IMAGE_COUNT : nat := 16.

(** The template literal [`https://picsum.photos/seed/${n}/600/600`]. *)
Definition placeholderSrc (n : Z) : string :=
  "https://picsum.photos/seed/" ++ numberToString n ++ "/600/600".

(** The slot built by the arrow function of [initialImages] at index [i]. *)
Definition initialSlot (i : Z) : ImageState :=
  {| id := i + 1; src := Some (placeholderSrc (i + 1)) |}.

(** The construction of [initialImages], for any length. *)
Definition initialize (count : nat) : list ImageState :=
  Array_from count initialSlot.

Definition initialImages : list ImageState :=
  initialize INITIAL_IMAGE_COUNT.

Definition initialState : AppState :=
  {| images := initialImages; layout := grid |}.

(** ** The store operations of [App] *)

(** The arrow function mapped over the list by [handleImageUpdate]:
    [img.id === id ? { ...img, src } : img]. *)
Definition updateSlot (id0 : Z) (src0 : string) (img : ImageState)
  : ImageState :=
  if id img =? id0 then {| id := id img; src := Some src0 |} else img.

(** [handleImageUpdate(id, src)]: [setImages] with the mapped list; the
    layout cell is not touched. *)
Definition handleImageUpdate (id0 : Z) (src0 : string) (st : AppState)
  : AppState :=
  {| images := map (updateSlot id0 src0) (images st);
     layout := layout st |}.

(** [setLayout(mode)]: the setter of the second [useState] cell. *)
Definition setLayout (mode : Layout) (st : AppState) : AppState :=
  {| images := images st; layout := mode |}.

(** [gridClasses], the class list chosen from the layout. *)
Definition gridClasses (st : AppState) : string :=
  match layout st with
  | grid =>
      "grid grid-cols-1 gap-4 sm:grid-cols-2 md:grid-cols-3 lg:grid-cols-4 xl:gap-6"
  | feed => "grid grid-cols-1 gap-8 max-w-2xl mx-auto"
  end.

(** ** The image card *)

(** The part of a DOM [File] the handler reads. *)
Record File : Type := mkFile {
  name : string;
  type : string;
}.

(** The file input behind a card, as the change event presents it:
    [event.target.files] (a [FileList] or [null]) and
    [event.target.value]. *)
Record InputElement : Type := mkInputElement {
  files : option (list File);
  value : string;
}.

(** What the page holds while it runs: the state of [App], the notices
    shown by [alert] so far (oldest first) and the files for which an
    object URL was created and never released. *)
Record Page : Type := mkPage {
  app     : AppState;
  alerts  : list string;
  objects : list File;
}.

(** [event.target.files?.[0]]: [undefined] when there is no list or the
    list is empty. *)
Definition firstFile (target : InputElement) : option File :=
  match files target with
  | None => None
  | Some fl => nth_error fl 0
  end.

(** [file.type.startsWith('image/')] *)
Definition isImageType (file : File) : bool :=
  prefix "image/" (type file).

Definition notImageNotice : string :=
  "لطفا یک فایل عکس انتخاب کنید.".

(** What [ImageCard] draws for a slot: the uploaded picture with its
    overlay, or the numbered upload prompt. *)
Inductive CardView : Type :=
| UploadedImage (imgSrc : string) (alt : string)
| UploadPrompt (shownId : Z).

(** The conditional [image.src ? <img .../> : <div>...</div>] of the
    card's markup. *)
Definition ImageCard (image : ImageState) : CardView :=
  if truthy (src image)
  then UploadedImage
         (match src image with Some s => s | None => "" end)
         ("Uploaded " ++ numberToString (id image))
  else UploadPrompt (id image).

Section Browser.

(** [URL.createObjectURL]: the URL minted for a file, given the files
    already registered with the page. *)
Variable createObjectURL : list File -> File -> string.

(** [handleFileChange] of the card showing [image], with
    [onImageUpload = handleImageUpdate]. The input is returned with its
    value cleared, as the last statement does on every path. *)
Definition handleFileChange (image : ImageState) (target : InputElement)
    (pg : Page) : Page * InputElement :=
  let cleared := {| files := files target; value := "" |} in
  match firstFile target with
  | Some file =>
      if isImageType file then
        let imageUrl := createObjectURL (objects pg) file in
        ({| app := handleImageUpdate (id image) imageUrl (app pg);
            alerts := alerts pg;
            objects := objects pg ++ [file] |}, cleared)
      else
        ({| app := app pg;
            alerts := alerts pg ++ [notImageNotice];
            objects := objects pg |}, cleared)
  | None => (pg, cleared)
  end.

(** One user interaction with the rendered page: a press on one of the
    two layout buttons, or a change event on the file input of one of
    the cards currently rendered. *)
Inductive step : Page -> Page -> Prop :=
| step_layout (mode : Layout) (pg : Page) :
    step pg {| app := setLayout mode (app pg);
               alerts := alerts pg;
               objects := objects pg |}
| step_file (image : ImageState) (target : InputElement) (pg : Page) :
    In image (images (app pg)) ->
    step pg (fst (handleFileChange image target pg)).

Definition initialPage : Page :=
  {| app := initialState; alerts := []; objects := [] |}.

(** The pages a session can show. *)
Inductive reachable : Page -> Prop :=
| reachable_init : reachable initialPage
| reachable_step (pg pg' : Page) :
    reachable pg -> step pg pg' -> reachable pg'.

End Browser.

(** ** The store seen on its own *)

(** One call of a store operation, with any argument. *)
Inductive store_step : AppState -> AppState -> Prop :=
| store_replace (id0 : Z) (src0 : string) (st : AppState) :
    store_step st (handleImageUpdate id0 src0 st)
| store_layout (mode : Layout) (st : AppState) :
    store_step st (setLayout mode st).

(** The ids [1 .. n], in order. *)
Definition idRange (n : nat) : list Z :=
  map Z.of_nat (seq 1 n).

(** Exactly one slot per id of [1 .. n], in id order. *)
Definition slotsCover (n : nat) (st : AppState) : Prop :=
  map id (images st) = idRange n.

(** ** Start-up *)

(** An element of the host document, with its [id] attribute. *)
Record Element : Type := mkElement {
  tagName   : string;
  elementId : option string;
}.

(** The elements of the document, in tree order. *)
Definition Document : Type := list Element.

(** [document.getElementById]: the first element carrying the id. *)
Definition getElementById (document : Document) (wanted : string)
  : option Element :=
  find (fun e => match elementId e with
                 | Some i => String.eqb i wanted
                 | None => false
                 end) document.

Inductive ReactNode : Type :=
| StrictMode (child : ReactNode)
| AppComponent.

(** What the start-up code does to the React runtime. *)
Inductive MountEffect : Type :=
| CreateRoot (container : Element)
| Render (container : Element) (node : ReactNode).

(** How the module body ends. *)
Inductive Completion : Type :=
| Completed
| Thrown (message : string).

(** The module body after the component definitions: look the mount
    point up, throw when it is missing, otherwise create the root and
    render [<React.StrictMode><App /></React.StrictMode>] into it. The
    list holds the runtime calls made, in order. *)
Definition main (document : Document) : Completion * list MountEffect :=
  match getElementById document "root" with
  | None => (Thrown "Could not find root element to mount to", [])
  | Some rootElement =>
      (Completed,
       [CreateRoot rootElement;
        Render rootElement (StrictMode AppComponent)])
  end.

(** ** The markup of [App] *)

Definition baseButtonClasses : string :=
  "p-2 rounded-lg transition-colors duration-300 focus:outline-none focus:ring-2 focus:ring-offset-2 focus:ring-offset-gray-900 focus:ring-cyan-500".

Definition activeButtonClasses : string := "bg-cyan-600 text-white".

Definition inactiveButtonClasses : string :=
  "bg-gray-700 text-gray-400 hover:bg-gray-600 hover:text-white".

(** [===] on two values of [Layout]. *)
Definition Layout_eqb (a b : Layout) : bool :=
  match a, b with
  | grid, grid => true
  | feed, feed => true
  | _, _ => false
  end.

(** The [className] of the switcher button that sets [mode]:
    [`${baseButtonClasses} ${layout === mode ? activeButtonClasses
    : inactiveButtonClasses}`]. *)
Definition buttonClassName (mode : Layout) (st : AppState) : string :=
  baseButtonClasses ++ " "
  ++ (if Layout_eqb (layout st) mode
      then activeButtonClasses else inactiveButtonClasses).

(** The children of the grid: [images.map((image) => <ImageCard
    key={image.id} image={image} ... />)], each card with its key. *)
Definition cardList (st : AppState) : list (Z * CardView) :=
  map (fun image => (id image, ImageCard image)) (images st).

(** The object URL that was minted for the [k]-th registered file, which
    was created when the files before it were the registered ones. *)
Definition mintedUrl (createObjectURL : list File -> File -> string)
    (registered : list File) (k : nat) : option string :=
  option_map (createObjectURL (firstn k registered))
             (nth_error registered k).

(** ** Sample inputs *)

(** An object URL as browsers mint it: the [blob:] scheme, then a token,
    here the position of the file among the registered ones. *)
Definition blobUrl (reg : list File) (_ : File) : string :=
  "blob:" ++ numberToString (Z.of_nat (List.length reg)).

Definition pngFile : File := {| name := "a.png"; type := "image/png" |}.
Definition textFile : File := {| name := "a.txt"; type := "text/plain" |}.

Definition chosen (file : File) : InputElement :=
  {| files := Some [file]; value := name file |}.

Definition dismissed : InputElement := {| files := Some []; value := "" |}.

Definition bareDocument : Document :=
  [ {| tagName := "HTML"; elementId := None |};
    {| tagName := "BODY"; elementId := None |} ].

Definition rootDiv : Element :=
  {| tagName := "DIV"; elementId := Some "root" |}.

Definition hostDocument : Document := (bareDocument ++ [rootDiv])%list.

(** The page after a PNG file was chosen on the first card of the initial
    page. *)
Definition uploadedPage : Page :=
  fst (handleFileChange blobUrl (initialSlot 0) (chosen pngFile) initialPage).

(** * Properties *)

(** ** Worked examples *)

Example initialImages_first :
  nth_error initialImages 0
  = Some {| id := 1; src := Some "https://picsum.photos/seed/1/600/600" |}.
Proof. reflexivity. Qed.

Example initialImages_last :
  nth_error initialImages 15
  = Some {| id := 16; src := Some "https://picsum.photos/seed/16/600/600" |}.
Proof. reflexivity. Qed.

Example replace_first_keeps_second :
  let st := handleImageUpdate 1 "blob:local-ref-A" initialState in
  option_map src (nth_error (images st) 0) = Some (Some "blob:local-ref-A")
  /\ option_map src (nth_error (images st) 1)
     = Some (Some "https://picsum.photos/seed/2/600/600").
Proof. split; reflexivity. Qed.

Example layout_round_trip :
  gridClasses (setLayout grid (setLayout feed initialState))
  = gridClasses initialState.
Proof. reflexivity. Qed.

(** ** The slot update *)

Lemma updateSlot_id (id0 : Z) (src0 : string) (img : ImageState) :
  id (updateSlot id0 src0 img) = id img.
Proof. unfold updateSlot. destruct (id img =? id0); reflexivity. Qed.

Lemma updateSlot_hit (id0 : Z) (src0 : string) (img : ImageState) :
  id img = id0 ->
  updateSlot id0 src0 img = {| id := id img; src := Some src0 |}.
Proof.
  intros Hid. unfold updateSlot.
  apply Z.eqb_eq in Hid. now rewrite Hid.
Qed.

Lemma updateSlot_miss (id0 : Z) (src0 : string) (img : ImageState) :
  id img <> id0 -> updateSlot id0 src0 img = img.
Proof.
  intros Hid. unfold updateSlot.
  apply Z.eqb_neq in Hid. now rewrite Hid.
Qed.

Lemma updateSlot_twice (id0 : Z) (src0 : string) (img : ImageState) :
  updateSlot id0 src0 (updateSlot id0 src0 img) = updateSlot id0 src0 img.
Proof.
  unfold updateSlot.
  destruct (id img =? id0) eqn:E; cbn [id]; now rewrite E.
Qed.

Lemma map_updateSlot_ids (id0 : Z) (src0 : string) (l : list ImageState) :
  map id (map (updateSlot id0 src0) l) = map id l.
Proof.
  rewrite map_map. apply map_ext. intros img. apply updateSlot_id.
Qed.

Lemma map_updateSlot_miss (id0 : Z) (src0 : string) (l : list ImageState) :
  (forall img, In img l -> id img <> id0) ->
  map (updateSlot id0 src0) l = l.
Proof.
  induction l as [|img l IH]; intros Hmiss; cbn [map].
  - reflexivity.
  - rewrite updateSlot_miss by (apply Hmiss; now left).
    f_equal. apply IH. intros img' Hin. apply Hmiss. now right.
Qed.

(** ** The initial slots *)

Lemma initialize_length (count : nat) : List.length (initialize count) = count.
Proof.
  unfold initialize, Array_from. now rewrite length_map, length_seq.
Qed.

Lemma initialize_nth (count k : nat) :
  (k < count)%nat ->
  nth_error (initialize count) k = Some (initialSlot (Z.of_nat k)).
Proof.
  intros Hk. unfold initialize, Array_from.
  rewrite nth_error_map, nth_error_seq.
  destruct (Nat.ltb_spec k count); [reflexivity | lia].
Qed.

Lemma initialize_ids (count : nat) :
  map id (initialize count) = idRange count.
Proof.
  unfold initialize, Array_from, idRange.
  rewrite <- seq_shift, !map_map. apply map_ext.
  intros i. cbn [initialSlot id]. lia.
Qed.

Lemma placeholderSrc_nonempty (n : Z) : placeholderSrc n <> "".
Proof. unfold placeholderSrc. cbn [append]. discriminate. Qed.

Lemma initialize_srcs (count : nat) :
  Forall (fun img => src img = Some (placeholderSrc (id img)))
         (initialize count).
Proof.
  unfold initialize, Array_from. apply Forall_map.
  apply Forall_forall. intros i _. reflexivity.
Qed.

(** ** The id range *)

Lemma idRange_In (n : nat) (z : Z) :
  In z (idRange n) <-> 1 <= z <= Z.of_nat n.
Proof.
  unfold idRange. rewrite in_map_iff. split.
  - intros [k [<- Hk]]. apply in_seq in Hk. lia.
  - intros Hz. exists (Z.to_nat z). split; [lia|]. apply in_seq. lia.
Qed.

Lemma idRange_NoDup (n : nat) : NoDup (idRange n).
Proof.
  unfold idRange. generalize 1%nat as start.
  induction n as [|n IH]; intros start; cbn [seq map].
  - constructor.
  - constructor; [|apply IH].
    rewrite in_map_iff. intros [k [Hk Hin]].
    apply in_seq in Hin. lia.
Qed.

(** A state that satisfies [slotsCover n] holds each id of [1 .. n] in
    one slot, and no other id. *)
Lemma slotsCover_one_per_id (n : nat) (st : AppState) :
  slotsCover n st ->
  List.length (images st) = n
  /\ NoDup (map id (images st))
  /\ (forall z, In z (map id (images st)) <-> 1 <= z <= Z.of_nat n)
  /\ (forall k img, nth_error (images st) k = Some img ->
                    id img = Z.of_nat k + 1).
Proof.
  unfold slotsCover. intros Hcov. split; [|split; [|split]].
  - rewrite <- (length_map id), Hcov. unfold idRange.
    now rewrite length_map, length_seq.
  - rewrite Hcov. apply idRange_NoDup.
  - intros z. rewrite Hcov. apply idRange_In.
  - intros k img Hk.
    assert (Hm : nth_error (map id (images st)) k = Some (id img))
      by (rewrite nth_error_map, Hk; reflexivity).
    rewrite Hcov in Hm. unfold idRange in Hm.
    rewrite nth_error_map, nth_error_seq in Hm.
    destruct (k <? n)%nat; [|discriminate].
    cbn in Hm. injection Hm as <-. lia.
Qed.

(** ** Replacing the image of a slot *)

(** C1. For every state, every id carried by some slot and every
    non-empty reference, [handleImageUpdate id ref] keeps the layout and
    the number of slots; at every position the new slot has the old id,
    has [src = ref] when that id is the given one, and is the old slot
    otherwise; and a slot with the given id and [src = ref] is present. *)
Theorem replaceSlotImage_changes_only_target
    (st : AppState) (id0 : Z) (ref : string) :
  (exists img, In img (images st) /\ id img = id0) ->
  ref <> "" ->
  layout (handleImageUpdate id0 ref st) = layout st
  /\ List.length (images (handleImageUpdate id0 ref st))
     = List.length (images st)
  /\ (forall k img,
        nth_error (images st) k = Some img ->
        exists img',
          nth_error (images (handleImageUpdate id0 ref st)) k = Some img'
          /\ id img' = id img
          /\ (id img = id0 -> src img' = Some ref)
          /\ (id img <> id0 -> img' = img))
  /\ (exists k img',
        nth_error (images (handleImageUpdate id0 ref st)) k = Some img'
        /\ id img' = id0 /\ src img' = Some ref).
Proof.
  intros [target [Hin Hid]] _. cbn [handleImageUpdate images layout].
  split; [reflexivity|]. split; [apply length_map|]. split.
  - intros k img Hk. exists (updateSlot id0 ref img).
    rewrite nth_error_map, Hk. split; [reflexivity|].
    split; [apply updateSlot_id|]. split.
    + intros Heq. now rewrite updateSlot_hit.
    + intros Hneq. now apply updateSlot_miss.
  - apply In_nth_error in Hin. destruct Hin as [k Hk].
    exists k, (updateSlot id0 ref target).
    rewrite nth_error_map, Hk. split; [reflexivity|].
    rewrite updateSlot_hit by exact Hid. cbn [id src]. now split.
Qed.

Lemma replaceSlotImage_changes_only_target_witness :
  (exists img, In img (images initialState) /\ id img = 1)
  /\ "blob:local-ref-A" <> ""
  /\ layout (handleImageUpdate 1 "blob:local-ref-A" initialState) = grid
  /\ List.length (images (handleImageUpdate 1 "blob:local-ref-A" initialState))
     = 16%nat.
Proof.
  assert (H1 : exists img, In img (images initialState) /\ id img = 1).
  { exists (initialSlot 0). split; [left; reflexivity | reflexivity]. }
  assert (H2 : "blob:local-ref-A" <> "") by discriminate.
  destruct (replaceSlotImage_changes_only_target
              initialState 1 "blob:local-ref-A" H1 H2) as [Hl [Hn _]].
  split; [exact H1|]. split; [exact H2|]. split; [exact Hl | exact Hn].
Defined.

(** C3. When no slot carries the given id, [handleImageUpdate] returns
    the state it was given: the function is total and the result is the
    prior state, slot list and layout alike. *)
Theorem replaceSlotImage_unknown_id_noop
    (st : AppState) (id0 : Z) (ref : string) :
  (forall img, In img (images st) -> id img <> id0) ->
  handleImageUpdate id0 ref st = st.
Proof.
  intros Hmiss. destruct st as [imgs lay].
  unfold handleImageUpdate. cbn [images layout] in *.
  now rewrite map_updateSlot_miss.
Qed.

Lemma replaceSlotImage_unknown_id_noop_witness :
  (forall img, In img (images initialState) -> id img <> 17)
  /\ handleImageUpdate 17 "blob:local-ref-A" initialState = initialState.
Proof.
  assert (H : forall img, In img (images initialState) -> id img <> 17).
  { intros img Hin Heq.
    assert (Hid : In (id img) (map id (images initialState)))
      by (now apply in_map).
    cbn [initialState images] in Hid. unfold initialImages in Hid.
    rewrite initialize_ids in Hid. apply idRange_In in Hid.
    rewrite Heq in Hid. destruct Hid as [_ Hle]. now apply Hle. }
  split; [exact H|].
  exact (replaceSlotImage_unknown_id_noop
           initialState 17 "blob:local-ref-A" H).
Defined.

(** C7. [handleImageUpdate id ref] is idempotent for every state, every
    id (carried by a slot or not) and every reference. *)
Theorem replaceSlotImage_idempotent
    (st : AppState) (id0 : Z) (ref : string) :
  handleImageUpdate id0 ref (handleImageUpdate id0 ref st)
  = handleImageUpdate id0 ref st.
Proof.
  unfold handleImageUpdate. cbn [images layout]. f_equal.
  rewrite map_map. apply map_ext. intros img. apply updateSlot_twice.
Qed.

(** ** The layout *)

(** C6. [setLayout mode] is idempotent: set twice, the state (layout and
    slot list) is the one obtained by setting it once. *)
Theorem setLayout_idempotent (st : AppState) (mode : Layout) :
  setLayout mode (setLayout mode st) = setLayout mode st.
Proof. reflexivity. Qed.

(** ** The initial slots and the id invariant *)

(** C2. For every [count > 0], [initialize count] has [count] slots,
    their ids are [1 .. count] in order, the slot at index [k] is the one
    with id [k + 1] and the placeholder reference of that id, and every
    reference is the non-empty placeholder computed from the slot's id;
    [initialImages] is this construction at 16. *)
Theorem initialize_sequential_slots (count : nat) :
  (0 < count)%nat ->
  List.length (initialize count) = count
  /\ map id (initialize count) = idRange count
  /\ (forall k, (k < count)%nat ->
        nth_error (initialize count) k
        = Some {| id := Z.of_nat k + 1;
                  src := Some (placeholderSrc (Z.of_nat k + 1)) |})
  /\ Forall (fun img => exists ref,
                 src img = Some ref /\ ref <> ""
                 /\ ref = placeholderSrc (id img))
            (initialize count)
  /\ initialImages = initialize 16.
Proof.
  intros _. split; [apply initialize_length|].
  split; [apply initialize_ids|]. split; [|split].
  - intros k Hk. now rewrite initialize_nth.
  - eapply Forall_impl; [|apply initialize_srcs].
    intros img Hsrc. exists (placeholderSrc (id img)).
    split; [exact Hsrc|]. split; [apply placeholderSrc_nonempty|reflexivity].
  - reflexivity.
Qed.

Lemma initialize_sequential_slots_witness :
  (0 < 16)%nat
  /\ List.length (initialize 16) = 16%nat
  /\ map id (initialize 16) = idRange 16.
Proof.
  assert (H : (0 < 16)%nat) by (apply Nat.lt_0_succ).
  destruct (initialize_sequential_slots 16 H) as [Hl [Hi _]].
  split; [exact H|]. split; [exact Hl | exact Hi].
Defined.

(** C4. The slot list holds exactly one slot per id of [1 .. N], in id
    order: this holds of the initial slots for every [N], of the initial
    state with [N = 16], and every store operation ([handleImageUpdate]
    with any id and reference, [setLayout] with any mode) preserves it. *)
Theorem slotsCover_invariant (n : nat) :
  slotsCover n {| images := initialize n; layout := grid |}
  /\ slotsCover INITIAL_IMAGE_COUNT initialState
  /\ (forall st st',
        slotsCover n st -> store_step st st' -> slotsCover n st').
Proof.
  split; [apply initialize_ids|]. split; [apply initialize_ids|].
  intros st st' Hcov Hstep. unfold slotsCover in *.
  destruct Hstep as [id0 src0 st | mode st]; cbn [images].
  - cbn [handleImageUpdate images]. now rewrite map_updateSlot_ids.
  - exact Hcov.
Qed.

Lemma slotsCover_invariant_witness :
  slotsCover 16 initialState
  /\ store_step initialState (handleImageUpdate 3 "" initialState)
  /\ slotsCover 16 (handleImageUpdate 3 "" initialState).
Proof.
  destruct (slotsCover_invariant 16) as [_ [H0 Hpres]].
  assert (Hs : store_step initialState (handleImageUpdate 3 "" initialState))
    by constructor.
  split; [exact H0|]. split; [exact Hs|].
  exact (Hpres _ _ H0 Hs).
Defined.

(** ** Choosing a file *)

Lemma prefix_spec (p s : string) :
  prefix p s = true <-> exists rest, s = p ++ rest.
Proof.
  revert s. induction p as [|a p IH]; intros s.
  - split; [intros _; now exists s | now destruct s].
  - destruct s as [|b s]; cbn [prefix append].
    + split; [discriminate | intros [rest Hrest]; discriminate].
    + destruct (ascii_dec a b) as [<-|Hab].
      * rewrite IH. split; intros [rest Hrest]; exists rest.
        -- now rewrite Hrest.
        -- now injection Hrest.
      * split; [discriminate|].
        intros [rest Hrest]. injection Hrest as Hb _. congruence.
Qed.

Lemma isImageType_spec (file : File) :
  isImageType file = true <-> exists rest, type file = "image/" ++ rest.
Proof. apply prefix_spec. Qed.

Section FileSelection.

Variable createObjectURL : list File -> File -> string.

(** C5. When the first selected file has a declared type that does not
    begin with [image/], the handler adds exactly one notice, the
    not-an-image message, and leaves the state of [App] as it was, so
    every slot keeps its [src]; no object URL is created. *)
Theorem nonImage_file_rejected
    (image : ImageState) (target : InputElement) (pg : Page) (file : File) :
  firstFile target = Some file ->
  ~ (exists rest, type file = "image/" ++ rest) ->
  alerts (fst (handleFileChange createObjectURL image target pg))
  = (alerts pg ++ [notImageNotice])%list
  /\ app (fst (handleFileChange createObjectURL image target pg)) = app pg
  /\ map src
        (images (app (fst (handleFileChange createObjectURL image target pg))))
     = map src (images (app pg))
  /\ objects (fst (handleFileChange createObjectURL image target pg))
     = objects pg.
Proof.
  intros Hfile Hnot. unfold handleFileChange. rewrite Hfile.
  destruct (isImageType file) eqn:E.
  - exfalso. apply Hnot. now apply isImageType_spec.
  - cbn [fst alerts app objects]. repeat split.
Qed.

(** C8. When the change event carries no file (no file list, or an empty
    one), the handler returns the page it was given: no slot changes, no
    notice is added. *)
Theorem no_file_selected_noop
    (image : ImageState) (target : InputElement) (pg : Page) :
  files target = None \/ files target = Some [] ->
  fst (handleFileChange createObjectURL image target pg) = pg
  /\ images (app (fst (handleFileChange createObjectURL image target pg)))
     = images (app pg)
  /\ alerts (fst (handleFileChange createObjectURL image target pg))
     = alerts pg.
Proof.
  intros Hnone.
  assert (Hfirst : firstFile target = None)
    by (unfold firstFile; destruct Hnone as [-> | ->]; reflexivity).
  unfold handleFileChange. rewrite Hfirst. cbn [fst]. repeat split.
Qed.

(** Whatever holds of the initial slots and of every slot that was given
    an object URL holds of every slot of a reachable page. *)
Lemma reachable_slots (P : ImageState -> Prop) :
  Forall P initialImages ->
  (forall img reg f,
      P {| id := id img; src := Some (createObjectURL reg f) |}) ->
  forall pg, reachable createObjectURL pg -> Forall P (images (app pg)).
Proof.
  intros Hinit Hurl pg Hreach.
  induction Hreach as [|pg pg' _ IH Hstep]; [exact Hinit|].
  destruct Hstep as [mode pg | image target pg _].
  - exact IH.
  - unfold handleFileChange.
    destruct (firstFile target) as [file|]; [|exact IH].
    destruct (isImageType file); [|exact IH].
    cbn [fst app handleImageUpdate images].
    apply Forall_map. eapply Forall_impl; [|exact IH].
    intros img Himg. unfold updateSlot.
    destruct (id img =? id image); [apply Hurl | exact Himg].
Qed.

(** C10. In every reachable page each slot's [src] is a string, never
    [null]; and, object URLs being non-empty, each card draws the
    uploaded-image branch, so the upload prompt is never rendered. *)
Theorem reachable_src_present (pg : Page) :
  reachable createObjectURL pg ->
  Forall (fun img => exists ref, src img = Some ref) (images (app pg))
  /\ ((forall reg f, createObjectURL reg f <> "") ->
      Forall (fun img => exists ref alt,
                  src img = Some ref
                  /\ ImageCard img = UploadedImage ref alt)
             (images (app pg))).
Proof.
  intros Hreach. split.
  - apply reachable_slots; [| |exact Hreach].
    + eapply Forall_impl; [|apply initialize_srcs].
      intros img Hsrc. now exists (placeholderSrc (id img)).
    + intros img reg f. now exists (createObjectURL reg f).
  - intros Hurl. apply reachable_slots; [| |exact Hreach].
    + eapply Forall_impl; [|apply initialize_srcs].
      intros img Hsrc. unfold ImageCard. rewrite Hsrc.
      exists (placeholderSrc (id img)). eexists. split; reflexivity.
    + intros img reg f. unfold ImageCard. cbn [src id].
      specialize (Hurl reg f).
      destruct (createObjectURL reg f) as [|c s]; [contradiction|].
      do 2 eexists. split; reflexivity.
Qed.

End FileSelection.

Lemma nonImage_file_rejected_witness :
  firstFile (chosen textFile) = Some textFile
  /\ ~ (exists rest, type textFile = "image/" ++ rest)
  /\ alerts (fst (handleFileChange blobUrl (initialSlot 0)
                                    (chosen textFile) initialPage))
     = [notImageNotice]
  /\ app (fst (handleFileChange blobUrl (initialSlot 0)
                                 (chosen textFile) initialPage))
     = initialState.
Proof.
  assert (H1 : firstFile (chosen textFile) = Some textFile) by reflexivity.
  assert (H2 : ~ (exists rest, type textFile = "image/" ++ rest)).
  { intros [rest Hrest]. discriminate Hrest. }
  destruct (nonImage_file_rejected blobUrl (initialSlot 0)
              (chosen textFile) initialPage textFile H1 H2)
    as [Ha [Hs _]].
  split; [exact H1|]. split; [exact H2|]. split; [exact Ha | exact Hs].
Defined.

Lemma no_file_selected_noop_witness :
  (files dismissed = None \/ files dismissed = Some [])
  /\ fst (handleFileChange blobUrl (initialSlot 0) dismissed initialPage)
     = initialPage.
Proof.
  assert (H : files dismissed = None \/ files dismissed = Some [])
    by (right; reflexivity).
  split; [exact H|].
  exact (proj1 (no_file_selected_noop blobUrl (initialSlot 0)
                  dismissed initialPage H)).
Defined.

Lemma reachable_src_present_witness :
  reachable blobUrl
    (fst (handleFileChange blobUrl (initialSlot 0) (chosen pngFile)
            initialPage))
  /\ (forall reg f, blobUrl reg f <> "")
  /\ Forall (fun img => exists ref alt,
                 src img = Some ref /\ ImageCard img = UploadedImage ref alt)
            (images (app (fst (handleFileChange blobUrl (initialSlot 0)
                                 (chosen pngFile) initialPage)))).
Proof.
  assert (H1 : reachable blobUrl
                 (fst (handleFileChange blobUrl (initialSlot 0)
                         (chosen pngFile) initialPage))).
  { eapply reachable_step; [apply reachable_init|].
    apply step_file. left. reflexivity. }
  assert (H2 : forall reg f, blobUrl reg f <> "").
  { intros reg f. unfold blobUrl. cbn [append]. discriminate. }
  split; [exact H1|]. split; [exact H2|].
  exact (proj2 (reachable_src_present blobUrl _ H1) H2).
Defined.

(** ** Start-up *)

Lemma getElementById_some (document : Document) (wanted : string)
    (e : Element) :
  getElementById document wanted = Some e ->
  In e document /\ elementId e = Some wanted.
Proof.
  unfold getElementById. intros Hfind.
  apply find_some in Hfind. destruct Hfind as [Hin Htest].
  split; [exact Hin|].
  destruct (elementId e) as [i|]; [|discriminate].
  apply String.eqb_eq in Htest. now subst.
Qed.

Lemma getElementById_none (document : Document) (wanted : string) :
  getElementById document wanted = None ->
  forall e, In e document -> elementId e <> Some wanted.
Proof.
  unfold getElementById. intros Hfind e Hin Hid.
  pose proof (find_none _ _ Hfind e Hin) as Htest. cbn beta in Htest.
  rewrite Hid, String.eqb_refl in Htest. discriminate.
Qed.

(** C9. When no element of the document carries the id [root], the
    start-up code throws and has called nothing of the React runtime;
    when some element carries it, the code completes, having created the
    root on such an element and rendered the application into it. *)
Theorem main_requires_root (document : Document) :
  ((forall e, In e document -> elementId e <> Some "root") ->
   main document = (Thrown "Could not find root element to mount to", []))
  /\ ((exists e, In e document /\ elementId e = Some "root") ->
      exists rootElement,
        In rootElement document
        /\ elementId rootElement = Some "root"
        /\ main document
           = (Completed,
              [CreateRoot rootElement;
               Render rootElement (StrictMode AppComponent)])).
Proof.
  unfold main.
  destruct (getElementById document "root") as [found|] eqn:E; split.
  - intros Hnone. apply getElementById_some in E.
    destruct E as [Hin Hid]. now destruct (Hnone found Hin).
  - intros _. apply getElementById_some in E. destruct E as [Hin Hid].
    now exists found.
  - reflexivity.
  - intros [e [Hin Hid]].
    now destruct (getElementById_none _ _ E e Hin).
Qed.

Lemma main_requires_root_witness :
  (forall e, In e bareDocument -> elementId e <> Some "root")
  /\ main bareDocument
     = (Thrown "Could not find root element to mount to", [])
  /\ (exists e, In e hostDocument /\ elementId e = Some "root")
  /\ fst (main hostDocument) = Completed.
Proof.
  assert (H1 : forall e, In e bareDocument -> elementId e <> Some "root").
  { intros e [<- | [<- | []]]; discriminate. }
  assert (H2 : exists e, In e hostDocument /\ elementId e = Some "root").
  { exists rootDiv. split; [right; right; left; reflexivity | reflexivity]. }
  split; [exact H1|].
  split; [exact (proj1 (main_requires_root bareDocument) H1)|].
  split; [exact H2|].
  destruct (proj2 (main_requires_root hostDocument) H2) as [el [_ [_ Hm]]].
  now rewrite Hm.
Defined.

(** * Further properties of the code *)

(** ** How the store operations compose *)

Lemma updateSlot_overwrite (id0 : Z) (r1 r2 : string) (img : ImageState) :
  updateSlot id0 r2 (updateSlot id0 r1 img) = updateSlot id0 r2 img.
Proof.
  unfold updateSlot.
  destruct (id img =? id0) eqn:E; cbn [id]; now rewrite E.
Qed.

Lemma updateSlot_swap (a b : Z) (r1 r2 : string) (img : ImageState) :
  a <> b ->
  updateSlot a r1 (updateSlot b r2 img)
  = updateSlot b r2 (updateSlot a r1 img).
Proof.
  intros Hab. unfold updateSlot.
  destruct (id img =? a) eqn:Ea; destruct (id img =? b) eqn:Eb;
    cbn [id]; rewrite ?Ea, ?Eb; try reflexivity.
  apply Z.eqb_eq in Ea, Eb. congruence.
Qed.

(** X1. Two replacements for the same id: the later reference wins, the
    earlier one leaves no trace. *)
Theorem handleImageUpdate_last_write_wins
    (st : AppState) (id0 : Z) (r1 r2 : string) :
  handleImageUpdate id0 r2 (handleImageUpdate id0 r1 st)
  = handleImageUpdate id0 r2 st.
Proof.
  unfold handleImageUpdate. cbn [images layout]. f_equal.
  rewrite map_map. apply map_ext. intros img. apply updateSlot_overwrite.
Qed.

(** X2. Replacements for two different ids commute. *)
Theorem handleImageUpdate_commute
    (st : AppState) (a b : Z) (r1 r2 : string) :
  a <> b ->
  handleImageUpdate a r1 (handleImageUpdate b r2 st)
  = handleImageUpdate b r2 (handleImageUpdate a r1 st).
Proof.
  intros Hab. unfold handleImageUpdate. cbn [images layout]. f_equal.
  rewrite !map_map. apply map_ext. intros img. now apply updateSlot_swap.
Qed.

Lemma handleImageUpdate_commute_witness :
  1 <> 2
  /\ handleImageUpdate 1 "blob:a" (handleImageUpdate 2 "blob:b" initialState)
     = handleImageUpdate 2 "blob:b" (handleImageUpdate 1 "blob:a" initialState).
Proof.
  assert (H : 1 <> 2) by discriminate.
  split; [exact H|].
  exact (handleImageUpdate_commute initialState 1 2 "blob:a" "blob:b" H).
Defined.

(** Under the id invariant the test [img.id === id] is a test on the
    position of the slot. *)
Lemma updateSlot_at_index (n : nat) (st : AppState) (id0 : Z) (ref : string)
    (k : nat) (img : ImageState) :
  slotsCover n st ->
  nth_error (images st) k = Some img ->
  updateSlot id0 ref img
  = if Z.of_nat k + 1 =? id0
    then {| id := id0; src := Some ref |} else img.
Proof.
  intros Hcov Hk.
  destruct (slotsCover_one_per_id n st Hcov) as [_ [_ [_ Hpos]]].
  unfold updateSlot. rewrite (Hpos k img Hk).
  destruct (Z.eqb_spec (Z.of_nat k + 1) id0) as [->|]; reflexivity.
Qed.

(** X3. In a state with one slot per id of [1 .. n], in order,
    [handleImageUpdate id ref] writes the slot at index [id - 1] and no
    other: that slot becomes [{ id, src: ref }], every other index reads
    as before; and an id below 1 or above [n] changes nothing. *)
Theorem handleImageUpdate_at_index
    (n : nat) (st : AppState) (id0 : Z) (ref : string) :
  slotsCover n st ->
  (forall k img,
      nth_error (images st) k = Some img ->
      nth_error (images (handleImageUpdate id0 ref st)) k
      = Some (if Z.of_nat k + 1 =? id0
              then {| id := id0; src := Some ref |} else img))
  /\ (1 <= id0 <= Z.of_nat n ->
      nth_error (images (handleImageUpdate id0 ref st)) (Z.to_nat (id0 - 1))
      = Some {| id := id0; src := Some ref |})
  /\ (id0 < 1 \/ Z.of_nat n < id0 -> handleImageUpdate id0 ref st = st).
Proof.
  intros Hcov.
  assert (Hat : forall k img,
             nth_error (images st) k = Some img ->
             nth_error (images (handleImageUpdate id0 ref st)) k
             = Some (if Z.of_nat k + 1 =? id0
                     then {| id := id0; src := Some ref |} else img)).
  { intros k img Hk. cbn [handleImageUpdate images].
    rewrite nth_error_map, Hk. cbn [option_map].
    now rewrite (updateSlot_at_index n st id0 ref k img Hcov Hk). }
  destruct (slotsCover_one_per_id n st Hcov) as [Hlen [_ [Hrange _]]].
  split; [exact Hat|]. split.
  - intros Hin.
    destruct (nth_error (images st) (Z.to_nat (id0 - 1))) as [img|] eqn:E.
    + rewrite (Hat _ _ E).
      replace (Z.of_nat (Z.to_nat (id0 - 1)) + 1) with id0 by lia.
      now rewrite Z.eqb_refl.
    + apply nth_error_None in E. lia.
  - intros Hout. destruct st as [imgs lay].
    unfold handleImageUpdate. cbn [images layout] in *. f_equal.
    apply map_updateSlot_miss. intros img Himg Hid.
    assert (Hz : In id0 (map id imgs))
      by (rewrite <- Hid; now apply in_map).
    apply Hrange in Hz. lia.
Qed.

Lemma handleImageUpdate_at_index_witness :
  slotsCover 16 initialState
  /\ nth_error (images (handleImageUpdate 5 "blob:e" initialState)) 4
     = Some {| id := 5; src := Some "blob:e" |}
  /\ handleImageUpdate 0 "blob:e" initialState = initialState.
Proof.
  assert (H : slotsCover 16 initialState) by (apply initialize_ids).
  destruct (handleImageUpdate_at_index 16 initialState 5 "blob:e" H)
    as [_ [Hin _]].
  destruct (handleImageUpdate_at_index 16 initialState 0 "blob:e" H)
    as [_ [_ Hout]].
  split; [exact H|]. split.
  - apply Hin. split; discriminate.
  - apply Hout. left. reflexivity.
Defined.

(** ** What a card draws *)

(** X4. A card draws the upload prompt exactly when its slot's [src] is
    [null] or the empty string; otherwise it draws the picture at [src]
    with the alternative text [Uploaded <id>]. *)
Theorem ImageCard_prompt_iff (image : ImageState) :
  (ImageCard image = UploadPrompt (id image)
   <-> src image = None \/ src image = Some "")
  /\ (forall ref, src image = Some ref -> ref <> "" ->
        ImageCard image
        = UploadedImage ref ("Uploaded " ++ numberToString (id image))).
Proof.
  unfold ImageCard. destruct image as [i [[|c s]|]]; cbn [src id truthy].
  - split; [split; [now right | reflexivity]|].
    intros ref [= <-] Hne. now destruct Hne.
  - split; [split; [discriminate | intros [H|H]; discriminate]|].
    now intros ref [= <-] _.
  - split; [split; [now left | reflexivity]|]. discriminate.
Qed.

Lemma ImageCard_prompt_iff_witness :
  src (initialSlot 0) = Some "https://picsum.photos/seed/1/600/600"
  /\ "https://picsum.photos/seed/1/600/600" <> ""
  /\ ImageCard (initialSlot 0)
     = UploadedImage "https://picsum.photos/seed/1/600/600" "Uploaded 1".
Proof.
  assert (H1 : src (initialSlot 0)
               = Some "https://picsum.photos/seed/1/600/600") by reflexivity.
  assert (H2 : "https://picsum.photos/seed/1/600/600" <> "") by discriminate.
  split; [exact H1|]. split; [exact H2|].
  exact (proj2 (ImageCard_prompt_iff (initialSlot 0)) _ H1 H2).
Defined.

(** X5. After [handleImageUpdate id ref], every card whose slot has that
    id draws the picture [ref] when [ref] is not empty, and falls back to
    the upload prompt when [ref] is the empty string; the cards of the
    other slots draw what they drew before. *)
Theorem handleImageUpdate_redraws_target
    (st : AppState) (id0 : Z) (ref : string) (k : nat) (img : ImageState) :
  nth_error (images st) k = Some img ->
  nth_error (cardList (handleImageUpdate id0 ref st)) k
  = Some (id img,
          if id img =? id0
          then (if String.eqb ref ""
                then UploadPrompt id0
                else UploadedImage ref ("Uploaded " ++ numberToString id0))
          else ImageCard img).
Proof.
  intros Hk. unfold cardList. cbn [handleImageUpdate images].
  rewrite !nth_error_map, Hk. cbn [option_map].
  rewrite updateSlot_id. unfold updateSlot.
  destruct (Z.eqb_spec (id img) id0) as [Heq|Hneq]; [|reflexivity].
  unfold ImageCard. cbn [src id]. rewrite Heq.
  now destruct ref as [|c s].
Qed.

Lemma handleImageUpdate_redraws_target_witness :
  nth_error (images initialState) 0 = Some (initialSlot 0)
  /\ nth_error (cardList (handleImageUpdate 1 "" initialState)) 0
     = Some (1, UploadPrompt 1).
Proof.
  assert (H : nth_error (images initialState) 0 = Some (initialSlot 0))
    by reflexivity.
  split; [exact H|].
  exact (handleImageUpdate_redraws_target initialState 1 "" 0 _ H).
Defined.

(** ** The layout switcher *)

Lemma active_not_inactive :
  baseButtonClasses ++ " " ++ activeButtonClasses
  <> baseButtonClasses ++ " " ++ inactiveButtonClasses.
Proof. apply String.eqb_neq. reflexivity. Qed.

(** X6. In every state exactly the button of the current layout carries
    the active classes: a button is active if and only if its mode is the
    layout, and inactive otherwise; so after [setLayout mode] the button
    of [mode] is the active one. *)
Theorem buttonClassName_marks_layout (st : AppState) (mode : Layout) :
  (buttonClassName mode st = baseButtonClasses ++ " " ++ activeButtonClasses
   <-> layout st = mode)
  /\ (buttonClassName mode st
      = baseButtonClasses ++ " " ++ inactiveButtonClasses
      <-> layout st <> mode)
  /\ (forall st0,
        buttonClassName mode (setLayout mode st0)
        = baseButtonClasses ++ " " ++ activeButtonClasses).
Proof.
  pose proof active_not_inactive as Hne.
  unfold buttonClassName.
  split; [|split].
  - destruct (layout st), mode; cbn [Layout_eqb];
      (split; [intros H; (reflexivity || (symmetry in H; contradiction))
              | intros H; (reflexivity || discriminate)]).
  - destruct (layout st), mode; cbn [Layout_eqb];
      (split; [intros H; (discriminate || contradiction)
              | intros H; (reflexivity || now destruct H)]).
  - intros st0. cbn [setLayout layout]. now destruct mode.
Qed.

Lemma gridClasses_differ :
  gridClasses {| images := []; layout := grid |}
  <> gridClasses {| images := []; layout := feed |}.
Proof. apply String.eqb_neq. reflexivity. Qed.

(** X7. The class list of the grid is a faithful picture of the layout:
    two states have the same [gridClasses] if and only if they have the
    same layout, whatever their slots; so [handleImageUpdate] never
    changes it and [setLayout] always sets the list of its mode. *)
Theorem gridClasses_tracks_layout (st st' : AppState) :
  (gridClasses st = gridClasses st' <-> layout st = layout st')
  /\ (forall id0 ref,
        gridClasses (handleImageUpdate id0 ref st) = gridClasses st)
  /\ (forall mode,
        gridClasses (setLayout mode st) = gridClasses (setLayout mode st')).
Proof.
  pose proof gridClasses_differ as Hne. unfold gridClasses in *.
  cbn [layout] in Hne. split; [|split; reflexivity].
  destruct (layout st), (layout st');
    (split; [intros H; (reflexivity || contradiction
                        || (symmetry in H; contradiction))
            | intros H; (reflexivity || discriminate)]).
Qed.

Lemma buttonClassName_marks_layout_witness :
  layout initialState = grid
  /\ buttonClassName grid initialState
     = baseButtonClasses ++ " " ++ activeButtonClasses
  /\ layout initialState <> feed
  /\ buttonClassName feed initialState
     = baseButtonClasses ++ " " ++ inactiveButtonClasses.
Proof.
  assert (H1 : layout initialState = grid) by reflexivity.
  assert (H2 : layout initialState <> feed) by discriminate.
  split; [exact H1|].
  split; [exact (proj2 (proj1 (buttonClassName_marks_layout
                                 initialState grid)) H1)|].
  split; [exact H2|].
  exact (proj2 (proj1 (proj2 (buttonClassName_marks_layout
                                initialState feed))) H2).
Defined.

Lemma gridClasses_tracks_layout_witness :
  layout initialState
  = layout (handleImageUpdate 1 "blob:a" initialState)
  /\ gridClasses initialState
     = gridClasses (handleImageUpdate 1 "blob:a" initialState).
Proof.
  assert (H : layout initialState
              = layout (handleImageUpdate 1 "blob:a" initialState))
    by reflexivity.
  split; [exact H|].
  exact (proj2 (proj1 (gridClasses_tracks_layout
                         initialState
                         (handleImageUpdate 1 "blob:a" initialState))) H).
Defined.

(** ** The placeholder references *)

Lemma length_append (s t : string) :
  String.length (s ++ t) = (String.length s + String.length t)%nat.
Proof. induction s as [|c s IH]; cbn; [reflexivity | now rewrite IH]. Qed.

Lemma append_cancel_r (t s1 s2 : string) : s1 ++ t = s2 ++ t -> s1 = s2.
Proof.
  revert s2. induction s1 as [|c s1 IH]; intros [|d s2] H.
  - reflexivity.
  - apply (f_equal String.length) in H.
    cbn [append] in H. cbn [String.length] in H.
    rewrite length_append in H. lia.
  - apply (f_equal String.length) in H.
    cbn [append] in H. cbn [String.length] in H.
    rewrite length_append in H. lia.
  - cbn [append] in H. injection H as -> H. f_equal. now apply IH.
Qed.

Lemma to_int_proper (z : Z) :
  Z.to_int z <> Decimal.Pos Decimal.Nil
  /\ Z.to_int z <> Decimal.Neg Decimal.Nil.
Proof.
  destruct z as [|p|p]; cbn; split; try discriminate;
    intros [= H]; now apply (DecimalPos.Unsigned.to_uint_nonnil p).
Qed.

Lemma numberToString_inj (a b : Z) :
  numberToString a = numberToString b -> a = b.
Proof.
  unfold numberToString. intros H.
  destruct (to_int_proper a) as [Ha1 Ha2].
  destruct (to_int_proper b) as [Hb1 Hb2].
  apply (f_equal NilZero.int_of_string) in H.
  rewrite !NilZero.isi in H by assumption.
  injection H as H.
  rewrite <- (DecimalZ.of_to a), <- (DecimalZ.of_to b). now f_equal.
Qed.

(** X8. The placeholder reference tells the slots apart: two ids with the
    same placeholder are the same id, and the references of the initial
    slots are pairwise different, for any number of slots. *)
Theorem placeholderSrc_injective (count : nat) :
  (forall a b, placeholderSrc a = placeholderSrc b -> a = b)
  /\ NoDup (map src (initialize count)).
Proof.
  assert (Hinj : forall a b, placeholderSrc a = placeholderSrc b -> a = b).
  { intros a b H. unfold placeholderSrc in H. cbn [append] in H.
    injection H as H. apply append_cancel_r in H.
    now apply numberToString_inj. }
  split; [exact Hinj|].
  unfold initialize, Array_from. rewrite map_map. cbn [initialSlot src].
  generalize 0%nat as start.
  induction count as [|count IH]; intros start; cbn [seq map].
  - constructor.
  - constructor; [|apply IH].
    rewrite in_map_iff. intros [k [Hk Hin]].
    apply in_seq in Hin.
    assert (Hk' : placeholderSrc (Z.of_nat k + 1)
                  = placeholderSrc (Z.of_nat start + 1)) by congruence.
    apply Hinj in Hk'. lia.
Qed.

Lemma placeholderSrc_injective_witness :
  placeholderSrc 7 = placeholderSrc (3 + 4) /\ 7 = 3 + 4.
Proof.
  assert (H : placeholderSrc 7 = placeholderSrc (3 + 4)) by reflexivity.
  split; [exact H|].
  exact (proj1 (placeholderSrc_injective 16) 7 (3 + 4) H).
Defined.

(** ** Sessions *)

Section Sessions.

Variable createObjectURL : list File -> File -> string.


(** Every reachable page keeps the sixteen slots with ids 1 to 16. *)
Lemma reachable_ids (pg : Page) :
  reachable createObjectURL pg -> slotsCover 16 (app pg).
Proof.
  intros Hreach. unfold slotsCover.
  induction Hreach as [|pg pg' _ IH Hstep]; [apply initialize_ids|].
  destruct Hstep as [mode pg | image target pg _]; [exact IH|].
  unfold handleFileChange.
  destruct (firstFile target) as [file|]; [|exact IH].
  destruct (isImageType file); [|exact IH].
  cbn [fst app handleImageUpdate images]. now rewrite map_updateSlot_ids.
Qed.

(** X10. On every reachable page the grid has sixteen cards whose keys
    are 1 to 16 in order, hence pairwise different. *)
Theorem reachable_cards_keyed (pg : Page) :
  reachable createObjectURL pg ->
  List.length (cardList (app pg)) = 16%nat
  /\ map fst (cardList (app pg)) = idRange 16
  /\ NoDup (map fst (cardList (app pg))).
Proof.
  intros Hreach. apply reachable_ids in Hreach.
  destruct (slotsCover_one_per_id 16 (app pg) Hreach) as [Hlen [Hnd _]].
  assert (Hkeys : map fst (cardList (app pg)) = map id (images (app pg))).
  { unfold cardList. rewrite map_map. reflexivity. }
  split; [unfold cardList; now rewrite length_map|].
  rewrite Hkeys. split; [exact Hreach | exact Hnd].
Qed.

(** X11. On a reachable page, choosing a file of an image type on the
    card at index [k] gives that slot, and no other, the object URL
    minted for the file: index [k] reads the card's id with the new URL,
    every other index reads as before, no notice is shown and the file
    is registered last. *)
Theorem upload_replaces_only_chosen_card
    (pg : Page) (k : nat) (image : ImageState) (target : InputElement)
    (file : File) :
  reachable createObjectURL pg ->
  nth_error (images (app pg)) k = Some image ->
  firstFile target = Some file ->
  (exists rest, type file = "image/" ++ rest) ->
  nth_error
    (images (app (fst (handleFileChange createObjectURL image target pg)))) k
  = Some {| id := id image;
            src := Some (createObjectURL (objects pg) file) |}
  /\ (forall j, j <> k ->
        nth_error
          (images
             (app (fst (handleFileChange createObjectURL image target pg)))) j
        = nth_error (images (app pg)) j)
  /\ alerts (fst (handleFileChange createObjectURL image target pg))
     = alerts pg
  /\ objects (fst (handleFileChange createObjectURL image target pg))
     = (objects pg ++ [file])%list.
Proof.
  intros Hreach Hk Hfile Himg. apply reachable_ids in Hreach.
  destruct (slotsCover_one_per_id 16 (app pg) Hreach) as [_ [_ [_ Hpos]]].
  apply isImageType_spec in Himg.
  unfold handleFileChange. rewrite Hfile, Himg.
  cbn [fst app alerts objects handleImageUpdate images].
  split; [|split; [|split; reflexivity]].
  - rewrite nth_error_map, Hk. cbn [option_map].
    now rewrite updateSlot_hit.
  - intros j Hj. rewrite nth_error_map.
    destruct (nth_error (images (app pg)) j) as [img|] eqn:E;
      [|reflexivity].
    cbn [option_map]. rewrite updateSlot_miss; [reflexivity|].
    rewrite (Hpos j img E), (Hpos k image Hk). lia.
Qed.

(** X12. On every reachable page each notice shown so far is the
    not-an-image message, and each file with an object URL has a declared
    type that begins with [image/]. *)
Theorem reachable_notices_and_objects (pg : Page) :
  reachable createObjectURL pg ->
  Forall (fun notice => notice = notImageNotice) (alerts pg)
  /\ Forall (fun file => exists rest, type file = "image/" ++ rest)
            (objects pg).
Proof.
  intros Hreach.
  induction Hreach as [|pg pg' _ [IHa IHo] Hstep];
    [split; constructor|].
  destruct Hstep as [mode pg | image target pg _]; [now split|].
  unfold handleFileChange.
  destruct (firstFile target) as [file|]; [|now split].
  destruct (isImageType file) eqn:E; cbn [fst alerts objects].
  - split; [exact IHa|]. apply Forall_app. split; [exact IHo|].
    constructor; [|constructor]. now apply isImageType_spec.
  - split; [|exact IHo]. apply Forall_app. split; [exact IHa|].
    now repeat constructor.
Qed.

Lemma mintedUrl_app (registered : list File) (file : File) (k : nat)
    (url : string) :
  mintedUrl createObjectURL registered k = Some url ->
  mintedUrl createObjectURL (registered ++ [file]) k = Some url.
Proof.
  unfold mintedUrl. intros H.
  destruct (nth_error registered k) as [f|] eqn:E; [|discriminate].
  assert (Hlt : (k < List.length registered)%nat)
    by (apply nth_error_Some; congruence).
  rewrite nth_error_app1, E by exact Hlt.
  rewrite firstn_app.
  replace (k - List.length registered)%nat with 0%nat by lia.
  cbn [firstn]. now rewrite app_nil_r.
Qed.

Lemma mintedUrl_last (registered : list File) (file : File) :
  mintedUrl createObjectURL (registered ++ [file]) (List.length registered)
  = Some (createObjectURL registered file).
Proof.
  unfold mintedUrl.
  rewrite nth_error_app2, Nat.sub_diag by reflexivity.
  rewrite firstn_app, Nat.sub_diag, firstn_all. cbn [firstn nth_error].
  now rewrite app_nil_r.
Qed.

(** X13. On every reachable page each slot's [src] is either the
    placeholder reference of the slot's own id or the object URL minted
    for one of the registered files: no other string ever reaches a
    slot. *)
Theorem reachable_src_provenance (pg : Page) :
  reachable createObjectURL pg ->
  Forall (fun img =>
            src img = Some (placeholderSrc (id img))
            \/ exists k url,
                mintedUrl createObjectURL (objects pg) k = Some url
                /\ src img = Some url)
         (images (app pg)).
Proof.
  intros Hreach.
  induction Hreach as [|pg pg' _ IH Hstep].
  - eapply Forall_impl; [|apply initialize_srcs].
    intros img Hsrc. now left.
  - destruct Hstep as [mode pg | image target pg _]; [exact IH|].
    unfold handleFileChange.
    destruct (firstFile target) as [file|]; [|exact IH].
    destruct (isImageType file); [|exact IH].
    cbn [fst app objects handleImageUpdate images].
    apply Forall_map. eapply Forall_impl; [|exact IH].
    intros img Himg. unfold updateSlot.
    destruct (id img =? id image).
    + right. exists (List.length (objects pg)).
      exists (createObjectURL (objects pg) file).
      split; [apply mintedUrl_last | reflexivity].
    + destruct Himg as [Hp | [k [url [Hm Hs]]]]; [now left|].
      right. exists k, url. split; [now apply mintedUrl_app | exact Hs].
Qed.

End Sessions.

Lemma uploadedPage_reachable : reachable blobUrl uploadedPage.
Proof.
  eapply reachable_step; [apply reachable_init|].
  apply step_file. left. reflexivity.
Defined.

Lemma reachable_cards_keyed_witness :
  reachable blobUrl uploadedPage
  /\ List.length (cardList (app uploadedPage)) = 16%nat
  /\ NoDup (map fst (cardList (app uploadedPage))).
Proof.
  pose proof uploadedPage_reachable as H.
  destruct (reachable_cards_keyed blobUrl uploadedPage H) as [Hl [_ Hn]].
  split; [exact H|]. split; [exact Hl | exact Hn].
Defined.

Lemma upload_replaces_only_chosen_card_witness :
  reachable blobUrl uploadedPage
  /\ nth_error (images (app uploadedPage)) 1 = Some (initialSlot 1)
  /\ firstFile (chosen pngFile) = Some pngFile
  /\ (exists rest, type pngFile = "image/" ++ rest)
  /\ nth_error
       (images (app (fst (handleFileChange blobUrl (initialSlot 1)
                            (chosen pngFile) uploadedPage)))) 1
     = Some {| id := 2; src := Some "blob:1" |}
  /\ nth_error
       (images (app (fst (handleFileChange blobUrl (initialSlot 1)
                            (chosen pngFile) uploadedPage)))) 0
     = Some {| id := 1; src := Some "blob:0" |}.
Proof.
  pose proof uploadedPage_reachable as H1.
  assert (H2 : nth_error (images (app uploadedPage)) 1
               = Some (initialSlot 1)) by reflexivity.
  assert (H3 : firstFile (chosen pngFile) = Some pngFile) by reflexivity.
  assert (H4 : exists rest, type pngFile = "image/" ++ rest)
    by (exists "png"; reflexivity).
  destruct (upload_replaces_only_chosen_card blobUrl uploadedPage 1
              (initialSlot 1) (chosen pngFile) pngFile H1 H2 H3 H4)
    as [Hk [Hother _]].
  split; [exact H1|]. split; [exact H2|]. split; [exact H3|].
  split; [exact H4|]. split; [exact Hk|].
  rewrite (Hother 0%nat) by discriminate. reflexivity.
Defined.

Lemma reachable_notices_and_objects_witness :
  reachable blobUrl uploadedPage
  /\ Forall (fun notice => notice = notImageNotice) (alerts uploadedPage)
  /\ Forall (fun file => exists rest, type file = "image/" ++ rest)
            (objects uploadedPage).
Proof.
  pose proof uploadedPage_reachable as H.
  split; [exact H|].
  exact (reachable_notices_and_objects blobUrl uploadedPage H).
Defined.

Lemma reachable_src_provenance_witness :
  reachable blobUrl uploadedPage
  /\ Forall (fun img =>
               src img = Some (placeholderSrc (id img))
               \/ exists k url,
                   mintedUrl blobUrl (objects uploadedPage) k = Some url
                   /\ src img = Some url)
            (images (app uploadedPage)).
Proof.
  pose proof uploadedPage_reachable as H.
  split; [exact H|].
  exact (reachable_src_provenance blobUrl uploadedPage H).
Defined.
